(** * Library inventory: the catalog manager [LibraryManager]

    A shallow embedding of [library_system/services/library_manager.py]
    and the properties of its catalog operations: identifier uniqueness,
    the duplicate-identifier error path, search, the dictionary
    round trip, and the order of in-memory mutation and storage write. *)

From Stdlib Require Import String Ascii ZArith List Bool Lia.
From Stdlib Require Import Floats.SpecFloat.
From stdpp Require Import base option list gmap strings fin_maps.

Local Open Scope string_scope.
Local Open Scope list_scope.

(** ** Python values and exceptions *)

(** The values a persisted record dictionary ([Dict[str, Any]]) carries
    for its attributes: the JSON scalars. *)
Inductive value : Type :=
  | VNone
  | VBool (b : bool)
  | VInt (z : Z)
  | VFloat (f : spec_float)
  | VStr (s : string).

#[global] Instance spec_float_eq_dec : EqDecision spec_float.
Proof. solve_decision. Defined.

#[global] Instance value_eq_dec : EqDecision value.
Proof. solve_decision. Defined.

(** [v == s] for a string literal [s]: among the scalars only an equal
    [str] compares equal to a [str]. *)
Definition py_eq_str (v : value) (s : string) : bool :=
  match v with
  | VStr s' => String.eqb s' s
  | _ => false
  end.

(** The payload of the two [ValueError]s the manager raises itself, and
    of the one [list.remove] raises. *)
Inductive message : Type :=
  | AlreadyExists (resource_id : string)
      (* f"Resource with ID {resource.resource_id} already exists." *)
  | UnknownResourceType (res_type : value)
      (* f"Unknown resource type: {res_type}" *)
  | NotInList.
      (* "list.remove(x): x not in list" *)

Inductive exn : Type :=
  | ValueError (m : message)
  | KeyError (key : string)
  | TypeError (callee : string)
  | OSError (m : string)
  | NotModelled.
      (* not a Python exception: marks a run that leaves the data model,
         see [arg_str] *)

Inductive outcome (A : Type) : Type :=
  | Ok (a : A)
  | Raise (e : exn).
Arguments Ok {A} a.
Arguments Raise {A} e.

#[global] Instance outcome_ret : MRet outcome := fun A a => Ok a.
#[global] Instance outcome_bind : MBind outcome := fun A B k m =>
  match m with
  | Ok a => k a
  | Raise e => Raise e
  end.

(** The names the specification gives to the manager's own errors. *)
Definition DuplicateIdentifier (resource_id : string) : exn :=
  ValueError (AlreadyExists resource_id).
Definition UnrecognizedType (res_type : value) : exn :=
  ValueError (UnknownResourceType res_type).

(** ** Records *)

(** The attributes every variant has.  The manager compares
    [resource_id] and lower-cases [title] and [author], which are
    strings; the other attributes are only carried around. *)
Record Attrs : Type := mkAttrs {
  attr_resource_id : string;
  attr_title : string;
  attr_author : string;
  attr_isbn : value;
  attr_page_count : value
}.

(** Modelled from the spec: the classes [Book], [EBook] and [Audiobook]
    of [library_system.models] are not part of the sources; they are plain
    data carriers with a fixed attribute list each, the attribute names
    being those [_resource_to_dict] reads. *)
Inductive LibraryResource : Type :=
  | Book (c : Attrs)
  | EBook (c : Attrs) (file_size_mb file_format : value)
  | Audiobook (c : Attrs) (duration_minutes narrator : value).

#[global] Instance Attrs_eq_dec : EqDecision Attrs.
Proof. solve_decision. Defined.

#[global] Instance LibraryResource_eq_dec : EqDecision LibraryResource.
Proof. solve_decision. Defined.

Definition common (r : LibraryResource) : Attrs :=
  match r with
  | Book c => c
  | EBook c _ _ => c
  | Audiobook c _ _ => c
  end.

Definition resource_id (r : LibraryResource) : string := attr_resource_id (common r).
Definition title (r : LibraryResource) : string := attr_title (common r).
Definition author (r : LibraryResource) : string := attr_author (common r).
Definition isbn (r : LibraryResource) : value := attr_isbn (common r).
Definition page_count (r : LibraryResource) : value := attr_page_count (common r).

(** [resource.__class__.__name__] *)
Definition class_name (r : LibraryResource) : string :=
  match r with
  | Book _ => "Book"
  | EBook _ _ _ => "EBook"
  | Audiobook _ _ _ => "Audiobook"
  end.

(** ** Dictionaries and the model classes' constructors *)

Abbreviation Dict := (gmap string value).

(** [data.update(other)]: the keys of [other] win. *)
Definition dict_update (other data : Dict) : Dict := other ∪ data.

Definition common_fields : list string :=
  ["resource_id"; "title"; "author"; "isbn"; "page_count"].
Definition EBook_fields : list string :=
  common_fields ++ ["file_size_mb"; "file_format"].
Definition Audiobook_fields : list string :=
  common_fields ++ ["duration_minutes"; "narrator"].

(** Binding of the unpacked dictionary to a constructor's keyword
    parameters: every key is a parameter and every parameter is given,
    otherwise [TypeError]. *)
Definition kwargs_bound (params : list string) (data : Dict) : bool :=
  bool_decide (dom data = list_to_set params).

Definition arg (callee : string) (data : Dict) (k : string) : outcome value :=
  match data !! k with
  | Some v => Ok v
  | None => Raise (TypeError callee)
  end.

(** An argument for an attribute the manager uses as a string.  Python
    stores whatever it is given; a non-string there is an object outside
    the data model, which the embedding does not represent. *)
Definition arg_str (callee : string) (data : Dict) (k : string) : outcome string :=
  v ← arg callee data k;
  match v with
  | VStr s => Ok s
  | _ => Raise NotModelled
  end.

Definition new_Attrs (callee : string) (data : Dict) : outcome Attrs :=
  i ← arg_str callee data "resource_id";
  t ← arg_str callee data "title";
  a ← arg_str callee data "author";
  n ← arg callee data "isbn";
  p ← arg callee data "page_count";
  Ok (mkAttrs i t a n p).

(** Modelled from the spec: the constructors of the absent model classes
    [Book], [EBook] and [Audiobook], called with the dictionary unpacked
    into keyword arguments, store them as the attributes of the same
    names. *)
Definition new_Book (data : Dict) : outcome LibraryResource :=
  if kwargs_bound common_fields data then
    c ← new_Attrs "Book" data; Ok (Book c)
  else Raise (TypeError "Book").

Definition new_EBook (data : Dict) : outcome LibraryResource :=
  if kwargs_bound EBook_fields data then
    c ← new_Attrs "EBook" data;
    s ← arg "EBook" data "file_size_mb";
    f ← arg "EBook" data "file_format";
    Ok (EBook c s f)
  else Raise (TypeError "EBook").

Definition new_Audiobook (data : Dict) : outcome LibraryResource :=
  if kwargs_bound Audiobook_fields data then
    c ← new_Attrs "Audiobook" data;
    d ← arg "Audiobook" data "duration_minutes";
    n ← arg "Audiobook" data "narrator";
    Ok (Audiobook c d n)
  else Raise (TypeError "Audiobook").

(** ** Serialization: [_resource_to_dict] and [_dict_to_resource] *)

Definition _resource_to_dict (resource : LibraryResource) : Dict :=
  let data : Dict :=
    <["type" := VStr (class_name resource)]>
    (<["resource_id" := VStr (resource_id resource)]>
    (<["title" := VStr (title resource)]>
    (<["author" := VStr (author resource)]>
    (<["isbn" := isbn resource]>
    (<["page_count" := page_count resource]> ∅))))) in
  match resource with
  | EBook _ file_size_mb file_format =>
      dict_update
        (<["file_size_mb" := file_size_mb]> (<["file_format" := file_format]> ∅))
        data
  | Audiobook _ duration_minutes narrator =>
      dict_update
        (<["duration_minutes" := duration_minutes]> (<["narrator" := narrator]> ∅))
        data
  | Book _ => data
  end.

(** [data.pop("type")]: the value and the dictionary without the key, or
    [KeyError] when the key is absent. *)
Definition dict_pop (k : string) (data : Dict) : outcome (value * Dict) :=
  match data !! k with
  | Some v => Ok (v, delete k data)
  | None => Raise (KeyError k)
  end.

Definition _dict_to_resource (data : Dict) : outcome LibraryResource :=
  '(res_type, data) ← dict_pop "type" data;
  if py_eq_str res_type "EBook" then new_EBook data
  else if py_eq_str res_type "Audiobook" then new_Audiobook data
  else if py_eq_str res_type "Book" then new_Book data
  else Raise (ValueError (UnknownResourceType res_type)).

(** [_dict_to_resource] with the caller's dictionary threaded through:
    [data.pop("type")] removes the key from the very dictionary that was
    passed in, and the constructors, which receive its entries as keyword
    arguments, leave it alone.  The result comes with the dictionary as
    the caller finds it after the call. *)
Definition _dict_to_resource_inplace (data : Dict) : outcome LibraryResource * Dict :=
  match dict_pop "type" data with
  | Raise e => (Raise e, data)
  | Ok (res_type, data) =>
      (if py_eq_str res_type "EBook" then new_EBook data
       else if py_eq_str res_type "Audiobook" then new_Audiobook data
       else if py_eq_str res_type "Book" then new_Book data
       else Raise (ValueError (UnknownResourceType res_type)),
       data)
  end.

(** ** Strings: [str.lower] and the substring test [in] *)

(** ASCII letters in the other case; every other character is kept. *)
Definition swap_case (c : ascii) : ascii :=
  let n := nat_of_ascii c in
  if (65 <=? n)%nat && (n <=? 90)%nat then ascii_of_nat (n + 32)
  else if (97 <=? n)%nat && (n <=? 122)%nat then ascii_of_nat (n - 32)
  else c.

(** Two strings that differ only in the case of some of their letters. *)
Inductive case_variant : string → string → Prop :=
  | case_variant_nil : case_variant "" ""
  | case_variant_same c s s' :
      case_variant s s' → case_variant (String c s) (String c s')
  | case_variant_swap c s s' :
      case_variant s s' → case_variant (String c s) (String (swap_case c) s').

(** [str.lower] is Python's own and not part of the sources; the manager
    is parametric in it.  Two facts of it are used: the empty string has
    no letters to convert, and strings that differ only in letter case
    have the same lower-case form. *)
Class CaseMap : Type := {
  lower : string → string;
  lower_empty : lower "" = "";
  lower_case_variant : ∀ s s', case_variant s s' → lower s = lower s'
}.

Fixpoint starts_with (sub s : string) : bool :=
  match sub, s with
  | EmptyString, _ => true
  | String _ _, EmptyString => false
  | String a sub', String b s' => Ascii.eqb a b && starts_with sub' s'
  end.

(** [sub in s] on strings. *)
Fixpoint str_in (sub s : string) : bool :=
  starts_with sub s ||
  match s with
  | EmptyString => false
  | String _ s' => str_in sub s'
  end.

(** ** The storage collaborator *)

(** Modelled from the spec: [Storage] of [library_system.utils.storage]
    is not part of the sources.  It is an external blob store with
    [load_data(path)] and [save_data(path, data)]; both act on the state
    of the file system, here any type [Disk], and both may raise. *)
Class Storage : Type := {
  Disk : Type;
  save_data : string → list Dict → Disk → outcome unit * Disk;
  load_data : string → Disk → outcome (list Dict) * Disk
}.

(** ** The manager *)

Record LibraryManager : Type := mkLibraryManager {
  storage_file : string;
  resources : list LibraryResource
}.

Definition set_resources (rs : list LibraryResource) (self : LibraryManager)
  : LibraryManager :=
  mkLibraryManager (storage_file self) rs.

(** [l.remove(x)]: drops the first item equal to [x]; [None] stands for
    the [ValueError] Python raises when there is none. *)
Fixpoint list_remove {A : Type} `{EqDecision A} (x : A) (l : list A)
  : option (list A) :=
  match l with
  | [] => None
  | y :: l' => if decide (y = x) then Some l' else cons y <$> list_remove x l'
  end.

(** Pure reads of the in-memory collection. *)

Definition get_resource (resource_id0 : string) (self : LibraryManager)
  : option LibraryResource :=
  List.find (fun r => String.eqb (resource_id r) resource_id0) (resources self).

Definition get_all_resources (self : LibraryManager) : list LibraryResource :=
  resources self.

Section Search.
Context `{CaseMap}.

Definition matches (query : string) (r : LibraryResource) : bool :=
  str_in query (lower (title r)) || str_in query (lower (author r)).

Definition search_resources (query : string) (self : LibraryManager)
  : list LibraryResource :=
  let query := lower query in
  List.filter (matches query) (resources self).
End Search.

(** Methods that touch storage run on the manager object and the disk;
    a raised exception leaves both as they were at the raise. *)
Section Manager.
Context `{Storage}.

Record World : Type := mkWorld {
  self : LibraryManager;
  disk : Disk
}.

Definition M (A : Type) : Type := World → outcome A * World.

Definition ret {A} (a : A) : M A := fun w => (Ok a, w).
Definition raise {A} (e : exn) : M A := fun w => (Raise e, w).
Definition bind {A B} (m : M A) (k : A → M B) : M B := fun w =>
  match m w with
  | (Ok a, w') => k a w'
  | (Raise e, w') => (Raise e, w')
  end.
Definition gets {A} (f : LibraryManager → A) : M A := fun w => (Ok (f (self w)), w).
Definition modify (f : LibraryManager → LibraryManager) : M unit := fun w =>
  (Ok tt, mkWorld (f (self w)) (disk w)).
Definition on_disk {A} (f : Disk → outcome A * Disk) : M A := fun w =>
  let '(res, d) := f (disk w) in (res, mkWorld (self w) d).

Local Notation "x <- m ;; k" := (bind m (fun x => k))
  (at level 100, m at next level, right associativity).
Local Notation "m ;; k" := (bind m (fun _ => k))
  (at level 100, right associativity).

Definition _save_resources : M unit :=
  rs <- gets resources ;;
  file <- gets storage_file ;;
  let data := List.map _resource_to_dict rs in
  on_disk (save_data file data).

Definition _load_resources : M unit :=
  file <- gets storage_file ;;
  data <- on_disk (load_data file) ;;
  match mapM _dict_to_resource data with
  | Ok rs => modify (set_resources rs)
  | Raise e => raise e
  end.

Definition __init__ (storage_file0 : string) (d : Disk)
  : outcome LibraryManager * Disk :=
  let '(res, w) := _load_resources (mkWorld (mkLibraryManager storage_file0 []) d) in
  (match res with Ok _ => Ok (self w) | Raise e => Raise e end, disk w).

Definition add_resource (resource : LibraryResource) : M unit :=
  rs <- gets resources ;;
  if List.existsb (fun r => String.eqb (resource_id r) (resource_id resource)) rs
  then raise (ValueError (AlreadyExists (resource_id resource)))
  else
    modify (set_resources (rs ++ [resource])) ;;
    _save_resources.

(** [if resource:] holds for every record found: the model classes are
    plain data carriers, whose objects are true. *)
Definition remove_resource (resource_id0 : string) : M unit :=
  resource <- gets (get_resource resource_id0) ;;
  match resource with
  | Some r =>
      rs <- gets resources ;;
      match list_remove r rs with
      | Some rs' => modify (set_resources rs') ;; _save_resources
      | None => raise (ValueError NotInList)
      end
  | None => ret tt
  end.

(** A caller's script: the given records added one after the other,
    stopping at the first exception. *)
Fixpoint add_all (rs : list LibraryResource) : M unit :=
  match rs with
  | [] => ret tt
  | r :: rs' => add_resource r ;; add_all rs'
  end.
(** The manager after the in-memory step of a mutation and the disk
    after the single write that follows it. *)
Definition written (rs : list LibraryResource) (w : World) : outcome unit * World :=
  let m := set_resources rs (self w) in
  let '(res, d) := save_data (storage_file m) (List.map _resource_to_dict rs) (disk w) in
  (res, mkWorld m d).

End Manager.

(** ** Instances used to run the manager *)

(** [str.lower] on ASCII text: [A]-[Z] to [a]-[z], everything else kept. *)
Definition ascii_lower (c : ascii) : ascii :=
  let n := nat_of_ascii c in
  if (65 <=? n)%nat && (n <=? 90)%nat then ascii_of_nat (n + 32) else c.

Fixpoint ascii_str_lower (s : string) : string :=
  match s with
  | EmptyString => EmptyString
  | String c s' => String (ascii_lower c) (ascii_str_lower s')
  end.

#[global] Instance ascii_case_map : CaseMap.
Proof.
  refine {| lower := ascii_str_lower; lower_empty := eq_refl;
            lower_case_variant := _ |}.
  induction 1 as [|c s s' _ IH|c s s' _ IH]; simpl.
  - reflexivity.
  - f_equal. exact IH.
  - f_equal; [|exact IH].
    destruct c as [[] [] [] [] [] [] [] []]; reflexivity.
Defined.

(** [str.lower] on UTF-8 text made of ASCII and Greek letters.  Greek
    capitals are the two bytes [CE 91] to [CE A9]; they become the small
    letters [CE B1] to [CE BF] and [CF 80] to [CF 89].  Capital sigma
    ([CE A3]) becomes final sigma ([CF 82]) when a cased letter precedes
    it and none follows it, and small sigma ([CF 83]) otherwise: the one
    context-sensitive rule of [str.lower] (case-ignorable characters
    between the letters are not treated). *)
Definition ascii_letter (c : ascii) : bool :=
  let n := nat_of_ascii c in
  ((65 <=? n)%nat && (n <=? 90)%nat) || ((97 <=? n)%nat && (n <=? 122)%nat).

Definition greek_letter (lead second : ascii) : bool :=
  let n := nat_of_ascii lead in
  let m := nat_of_ascii second in
  if (n =? 206)%nat then
    ((145 <=? m)%nat && (m <=? 169)%nat && negb (m =? 162)%nat) ||
    ((177 <=? m)%nat && (m <=? 191)%nat)
  else if (n =? 207)%nat then (128 <=? m)%nat && (m <=? 137)%nat
  else false.

Definition starts_cased (s : string) : bool :=
  match s with
  | EmptyString => false
  | String c EmptyString => ascii_letter c
  | String c (String d _) => ascii_letter c || greek_letter c d
  end.

Definition greek_small (prev_cased next_cased : bool) (lead second : ascii) : string :=
  let n := nat_of_ascii lead in
  let m := nat_of_ascii second in
  if (n =? 206)%nat && (m =? 163)%nat then
    String (ascii_of_nat 207)
      (String (ascii_of_nat (if prev_cased && negb next_cased then 130 else 131)) "")
  else if (n =? 206)%nat && (m <=? 159)%nat then
    String lead (String (ascii_of_nat (m + 32)) "")
  else if (n =? 206)%nat && (m <=? 169)%nat then
    String (ascii_of_nat 207) (String (ascii_of_nat (m - 32)) "")
  else String lead (String second "").

Fixpoint greek_pass (prev_cased : bool) (s : string) : string :=
  match s with
  | EmptyString => EmptyString
  | String c s' =>
      match s' with
      | EmptyString => String c EmptyString
      | String d s'' =>
          if greek_letter c d then
            greek_small prev_cased (starts_cased s'') c d +:+ greek_pass true s''
          else String c (greek_pass (ascii_letter c) s')
      end
  end.

Definition greek_lower (s : string) : string :=
  greek_pass false (ascii_str_lower s).

Definition greek_case_map : CaseMap.
Proof.
  refine {| lower := greek_lower; lower_empty := eq_refl;
            lower_case_variant := _ |}.
  intros s s' Hv. unfold greek_lower. f_equal.
  exact (@lower_case_variant ascii_case_map s s' Hv).
Defined.

(** A test over all 256 characters. *)
Definition forall_bool (f : bool → bool) : bool := f true && f false.

Definition forall_ascii (P : ascii → bool) : bool :=
  forall_bool (fun b0 => forall_bool (fun b1 => forall_bool (fun b2 =>
  forall_bool (fun b3 => forall_bool (fun b4 => forall_bool (fun b5 =>
  forall_bool (fun b6 => forall_bool (fun b7 =>
    P (Ascii b0 b1 b2 b3 b4 b5 b6 b7))))))))).

(** A blob store in memory: one list of dictionaries per path, written as
    a whole.  A path never written holds no records. *)
Definition MemDisk : Type := list (string * list Dict).

Fixpoint mem_lookup (path : string) (fs : MemDisk) : list Dict :=
  match fs with
  | [] => []
  | (p, data) :: fs' => if String.eqb p path then data else mem_lookup path fs'
  end.

Definition mem_save (path : string) (data : list Dict) (d : MemDisk)
  : outcome unit * MemDisk :=
  (Ok tt, (path, data) :: d).

Definition mem_load (path : string) (d : MemDisk) : outcome (list Dict) * MemDisk :=
  (Ok (mem_lookup path d), d).

#[global] Instance mem_storage : Storage :=
  {| Disk := MemDisk; save_data := mem_save; load_data := mem_load |}.

(** The same store write-protected: every write is refused. *)
Definition protected_save (path : string) (data : list Dict) (d : MemDisk)
  : outcome unit * MemDisk :=
  (Raise (OSError "Permission denied"), d).

Definition protected_storage : Storage :=
  {| Disk := MemDisk; save_data := protected_save; load_data := mem_load |}.

(** The records of the specification's scenario. *)
Definition dune_attrs (i : string) : Attrs :=
  mkAttrs i "Dune" "Frank Herbert" (VStr "978-0441013593") (VInt 412).

(* 3.2 as a binary64 number *)
Definition f3_2 : spec_float := S754_finite false 7205759403792794 (-51).

Definition b1 : LibraryResource := Book (dune_attrs "b1").
Definition e1 : LibraryResource := EBook (dune_attrs "e1") (VFloat f3_2) (VStr "EPUB").
Definition a1 : LibraryResource :=
  Audiobook (mkAttrs "a1" "The Hobbit" "J.R.R. Tolkien" (VStr "978-0261103283") VNone)
            (VInt 683) (VStr "Rob Inglis").

(** A record of another variant that bears the identifier of [b1]. *)
Definition b1_again : LibraryResource :=
  EBook (mkAttrs "b1" "Dune Messiah" "Frank Herbert" (VStr "978-0593098233") (VInt 336))
        (VFloat f3_2) (VStr "EPUB").

Definition library_json : string := "data/library.json".

(** A new catalog over an empty store, the catalog after [b1] and [e1]
    were added to it, and that catalog over the write-protected store. *)
Definition fresh_world : World :=
  mkWorld (mkLibraryManager library_json []) ([] : MemDisk).

Definition dune_disk : MemDisk :=
  [(library_json, [_resource_to_dict b1; _resource_to_dict e1]);
   (library_json, [_resource_to_dict b1])].

Definition dune_world : World :=
  mkWorld (mkLibraryManager library_json [b1; e1]) dune_disk.

Definition protected_world : @World protected_storage :=
  @mkWorld protected_storage (mkLibraryManager library_json [b1; e1]) dune_disk.

(** A store whose file holds two records with the identifier ["b1"]. *)
Definition clashing_disk : MemDisk :=
  [(library_json, [_resource_to_dict b1; _resource_to_dict b1_again])].

(** A book whose title is the Greek word for street, in capitals. *)
Definition odos : LibraryResource :=
  Book (mkAttrs "g1" "ΟΔΟΣ" "Anon" (VStr "978-9600000000") (VInt 96)).

(** The catalog a load of [clashing_disk] produces, and a store whose
    second dictionary has lost its tag. *)
Definition clashing_world : World :=
  mkWorld (mkLibraryManager library_json [b1; b1_again]) clashing_disk.

Definition broken_disk : MemDisk :=
  [(library_json,
    [_resource_to_dict b1; delete "type" (_resource_to_dict e1); _resource_to_dict a1])].

(** ** Vocabulary of the specification *)

(** No two records share the same identifier. *)
Definition unique_ids (rs : list LibraryResource) : Prop :=
  ∀ i j ri rj,
    rs !! i = Some ri → rs !! j = Some rj →
    resource_id ri = resource_id rj → i = j.

(** A record bearing the identifier is in the collection. *)
Definition present (resource_id0 : string) (rs : list LibraryResource) : Prop :=
  ∃ r, r ∈ rs ∧ resource_id r = resource_id0.

(** [sub] occurs in [s] as a substring. *)
Definition substring_of (sub s : string) : Prop :=
  ∃ pre post, s = pre +:+ sub +:+ post.

Section SearchVocabulary.
Context `{CaseMap}.

(** The lower-case form of [s] contains the lower-case form of [query]:
    the comparison [search] makes, on whole strings. *)
Definition lowered_contains (query s : string) : Prop :=
  substring_of (lower query) (lower s).

(** What [search] looks for: the query in the title or in the author. *)
Definition hit (query : string) (r : LibraryResource) : Prop :=
  lowered_contains query (title r) ∨ lowered_contains query (author r).
End SearchVocabulary.

(** [s] contains [query] as a substring up to the case of its letters:
    a piece of [s] differs from [query] only in letter case. *)
Definition contains_up_to_case (query s : string) : Prop :=
  ∃ pre t post, s = pre +:+ t +:+ post ∧ case_variant t query.

(** ASCII text: every character is below 128. *)
Fixpoint is_ascii (s : string) : bool :=
  match s with
  | EmptyString => true
  | String c s' => (nat_of_ascii c <? 128)%nat && is_ascii s'
  end.

(** [res] is the ordered subsequence of [l] made of its elements that
    satisfy [P]. *)
Inductive selects {A : Type} (P : A → Prop) : list A → list A → Prop :=
  | selects_nil : selects P [] []
  | selects_keep x l res : P x → selects P l res → selects P (x :: l) (x :: res)
  | selects_skip x l res : ¬ P x → selects P l res → selects P (x :: l) res.

(** The attributes a variant has on top of the common ones. *)
Definition variant_fields (r : LibraryResource) : list string :=
  match r with
  | Book _ => []
  | EBook _ _ _ => ["file_size_mb"; "file_format"]
  | Audiobook _ _ _ => ["duration_minutes"; "narrator"]
  end.

(** The variant tags [_dict_to_resource] recognizes, with the keyword
    parameters of the class each one names. *)
Definition recognized : list (string * list string) :=
  [("EBook", EBook_fields); ("Audiobook", Audiobook_fields); ("Book", common_fields)].

(** A dictionary that carries, besides its tag, exactly the attributes
    [fields], those the manager reads as strings being strings. *)
Definition well_formed (fields : list string) (data : Dict) : Prop :=
  dom data = list_to_set ("type" :: fields) ∧
  ∀ k, k ∈ ["resource_id"; "title"; "author"] → ∃ s, data !! k = Some (VStr s).

(** * Properties *)

(** ** Lists and lookups by identifier *)

Lemma unique_ids_NoDup rs : unique_ids rs ↔ NoDup (resource_id <$> rs).
Proof.
  rewrite NoDup_alt. unfold unique_ids. split.
  - intros Hu i j x Hi Hj. rewrite list_lookup_fmap in Hi, Hj.
    destruct (rs !! i) as [ri|] eqn:Ei; [|done].
    destruct (rs !! j) as [rj|] eqn:Ej; [|done].
    simpl in *. apply (Hu i j ri rj); congruence.
  - intros Hn i j ri rj Hi Hj Hid.
    apply (Hn i j (resource_id ri)); rewrite list_lookup_fmap.
    + by rewrite Hi.
    + rewrite Hj. simpl. by rewrite Hid.
Qed.

Lemma present_ids i rs : present i rs ↔ i ∈ resource_id <$> rs.
Proof.
  unfold present. rewrite list_elem_of_fmap. split.
  - intros (r & Hin & <-). by exists r.
  - intros (r & -> & Hin). by exists r.
Qed.

Lemma existsb_ids i rs :
  List.existsb (fun r => String.eqb (resource_id r) i) rs = true ↔ present i rs.
Proof.
  rewrite existsb_exists. unfold present. split.
  - intros (r & Hin & Heq). exists r. split; [by apply list_elem_of_In|].
    by apply String.eqb_eq.
  - intros (r & Hin & Heq). exists r. split; [by apply list_elem_of_In|].
    by apply String.eqb_eq.
Qed.

Lemma existsb_ids_false i rs :
  List.existsb (fun r => String.eqb (resource_id r) i) rs = false ↔ ¬ present i rs.
Proof.
  rewrite <- existsb_ids. destruct (List.existsb _ rs); naive_solver.
Qed.

Lemma get_resource_None i m : get_resource i m = None ↔ ¬ present i (resources m).
Proof.
  unfold get_resource. rewrite <- existsb_ids_false.
  induction (resources m) as [|r rs IH]; simpl; [done|].
  destruct (String.eqb (resource_id r) i); simpl; [done|apply IH].
Qed.

(** [get_resource] finds the first record bearing the identifier. *)
Lemma get_resource_Some i m r :
  get_resource i m = Some r ↔
  ∃ l1 l2, resources m = l1 ++ r :: l2 ∧ resource_id r = i ∧ ¬ present i l1.
Proof.
  unfold get_resource. induction (resources m) as [|x rs IH]; simpl.
  - split; [done|]. intros (l1 & l2 & E & _). by destruct l1.
  - destruct (String.eqb (resource_id x) i) eqn:Ex.
    + apply String.eqb_eq in Ex. split.
      * intros [= ->]. exists [], rs. repeat split; [done|].
        intros (y & Hy & _). by apply elem_of_nil in Hy.
      * intros (l1 & l2 & E & Hid & Hn). destruct l1 as [|y l1]; simpl in E.
        -- congruence.
        -- injection E as -> E. destruct Hn. exists y. split; [left|done].
    + apply String.eqb_neq in Ex. rewrite IH. split.
      * intros (l1 & l2 & -> & Hid & Hn). exists (x :: l1), l2.
        repeat split; [done|]. intros (y & Hy & Hyi).
        apply elem_of_cons in Hy as [->|Hy]; [done|]. apply Hn. by exists y.
      * intros (l1 & l2 & E & Hid & Hn). destruct l1 as [|y l1]; simpl in E.
        -- injection E as -> _. done.
        -- injection E as -> E. exists l1, l2. repeat split; [done..|].
           intros (z & Hz & Hzi). apply Hn. exists z. split; [by right|done].
Qed.

Lemma list_remove_first {A} `{EqDecision A} (x : A) l1 l2 :
  x ∉ l1 → list_remove x (l1 ++ x :: l2) = Some (l1 ++ l2).
Proof.
  induction l1 as [|y l1 IH]; simpl; intros Hn.
  - by rewrite decide_True.
  - rewrite decide_False; [|intros ->; apply Hn; left].
    rewrite IH; [done|]. intros Hx. apply Hn. by right.
Qed.

Lemma present_dec i rs : present i rs ∨ ¬ present i rs.
Proof.
  rewrite present_ids. destruct (decide (i ∈ resource_id <$> rs)); tauto.
Qed.

Lemma not_present_app i l1 l2 :
  ¬ present i (l1 ++ l2) ↔ ¬ present i l1 ∧ ¬ present i l2.
Proof.
  rewrite !present_ids, fmap_app, elem_of_app. tauto.
Qed.

Lemma unique_ids_snoc rs r :
  unique_ids rs → ¬ present (resource_id r) rs → unique_ids (rs ++ [r]).
Proof.
  rewrite !unique_ids_NoDup, present_ids, fmap_app. intros Hu Hn.
  apply NoDup_app. repeat split; [done| |apply NoDup_singleton].
  intros x Hx Hx'. apply list_elem_of_singleton in Hx'. by subst.
Qed.

Lemma unique_ids_drop l1 r l2 :
  unique_ids (l1 ++ r :: l2) → unique_ids (l1 ++ l2) ∧ ¬ present (resource_id r) (l1 ++ l2).
Proof.
  rewrite !unique_ids_NoDup, present_ids, !fmap_app, fmap_cons.
  intros Hu. apply NoDup_app in Hu as (H1 & H2 & H3).
  apply NoDup_cons in H3 as [H3 H4]. split.
  - apply NoDup_app. repeat split; [done| |done].
    intros x Hx Hx'. apply (H2 x Hx). by right.
  - rewrite elem_of_app. intros [Hx|Hx]; [|done]. apply (H2 _ Hx). left.
Qed.

(** ** What one call does to the manager and the disk *)

Section Runs.
Context `{Storage}.

Lemma add_resource_duplicate resource w :
  present (resource_id resource) (resources (self w)) →
  add_resource resource w = (Raise (DuplicateIdentifier (resource_id resource)), w).
Proof.
  intros Hp. apply existsb_ids in Hp.
  unfold add_resource, bind, gets, raise. simpl. by rewrite Hp.
Qed.

Lemma add_resource_fresh resource w :
  ¬ present (resource_id resource) (resources (self w)) →
  add_resource resource w = written (resources (self w) ++ [resource]) w.
Proof.
  intros Hp. apply existsb_ids_false in Hp.
  unfold add_resource, bind, gets, raise. simpl. rewrite Hp.
  unfold modify, _save_resources, bind, gets, on_disk, written. simpl.
  by destruct (save_data _ _ _).
Qed.

Lemma remove_resource_absent i w :
  ¬ present i (resources (self w)) → remove_resource i w = (Ok tt, w).
Proof.
  intros Hp. apply get_resource_None in Hp.
  unfold remove_resource, bind, gets, ret. simpl. by rewrite Hp.
Qed.

Lemma remove_resource_first i w l1 r l2 :
  resources (self w) = l1 ++ r :: l2 → resource_id r = i → ¬ present i l1 →
  remove_resource i w = written (l1 ++ l2) w.
Proof.
  intros E Hid Hn.
  assert (get_resource i (self w) = Some r) as Hg.
  { apply get_resource_Some. by exists l1, l2. }
  unfold remove_resource, bind, gets. simpl. rewrite Hg, E.
  rewrite list_remove_first.
  - unfold modify, _save_resources, bind, gets, on_disk, written. simpl.
    by destruct (save_data _ _ _).
  - intros Hin. apply Hn. by exists r.
Qed.

Lemma remove_resource_present i w :
  present i (resources (self w)) →
  ∃ l1 r l2, resources (self w) = l1 ++ r :: l2 ∧ resource_id r = i ∧
             ¬ present i l1 ∧ remove_resource i w = written (l1 ++ l2) w.
Proof.
  intros Hp. destruct (get_resource i (self w)) as [r|] eqn:Hg.
  - apply get_resource_Some in Hg as (l1 & l2 & E & Hid & Hn).
    exists l1, r, l2. repeat split; [done..|]. by eapply remove_resource_first.
  - by apply get_resource_None in Hg.
Qed.

Lemma written_resources rs w : resources (self (snd (written rs w))) = rs.
Proof. unfold written. by destruct (save_data _ _ _). Qed.

Lemma written_storage_file rs w :
  storage_file (self (snd (written rs w))) = storage_file (self w).
Proof. unfold written. by destruct (save_data _ _ _). Qed.

(** ** Identifier uniqueness *)

(** C1: identifier uniqueness is an invariant of the catalog. From a
    state in which no two records share an identifier, the state after
    any [add_resource] call and after any [remove_resource] call, whether
    the call returned or raised, again has no two records sharing an
    identifier. *)
Theorem unique_ids_invariant (w : World) :
  unique_ids (resources (self w)) →
  (∀ resource, unique_ids (resources (self (snd (add_resource resource w))))) ∧
  (∀ i, unique_ids (resources (self (snd (remove_resource i w))))).
Proof.
  intros Hu. split.
  - intros resource.
    destruct (present_dec (resource_id resource) (resources (self w))) as [Hp|Hp].
    + by rewrite add_resource_duplicate.
    + rewrite add_resource_fresh, written_resources by done.
      by apply unique_ids_snoc.
  - intros i.
    destruct (present_dec i (resources (self w))) as [Hp|Hp].
    + destruct (remove_resource_present i w Hp) as (l1 & r & l2 & E & _ & _ & ->).
      rewrite written_resources. rewrite E in Hu.
      by apply unique_ids_drop in Hu as [Hu _].
    + by rewrite remove_resource_absent.
Qed.
(** ** The duplicate-identifier error path *)

(** C2: for records [r1] and [r2] with equal identifiers, [add(r1)]
    followed by [add(r2)] raises DuplicateIdentifier on the second call,
    and that call leaves the in-memory collection and the storage as
    they were; when [r1] was appended by the first call, the collection
    holds [r1] and no other record with that identifier, so [r2] is not
    in it (unless it is [r1] itself). *)
Theorem second_add_is_rejected (w : World) (r1 r2 : LibraryResource) :
  resource_id r1 = resource_id r2 →
  let w1 := snd (add_resource r1 w) in
  add_resource r2 w1 = (Raise (DuplicateIdentifier (resource_id r2)), w1) ∧
  (¬ present (resource_id r1) (resources (self w)) →
     resources (self w1) = resources (self w) ++ [r1] ∧
     r1 ∈ resources (self w1) ∧
     (r2 ∈ resources (self w1) → r2 = r1)).
Proof.
  intros Hid w1. subst w1.
  destruct (present_dec (resource_id r1) (resources (self w))) as [Hp|Hp].
  - rewrite (add_resource_duplicate r1 w) by done. simpl.
    split; [|intros Hn; destruct (Hn Hp)].
    apply add_resource_duplicate. by rewrite <- Hid.
  - rewrite (add_resource_fresh r1 w) by done. split.
    + apply add_resource_duplicate. rewrite written_resources, <- Hid.
      exists r1. split; [|done]. apply elem_of_app. right. left.
    + intros _. rewrite written_resources. repeat split.
      * apply elem_of_app. right. left.
      * intros Hin. apply elem_of_app in Hin as [Hin|Hin].
        -- destruct Hp. exists r2. by split.
        -- by apply list_elem_of_singleton in Hin.
Qed.

(** ** Removal *)

(** C9: [remove(id)] for an identifier no record bears is a no-op: it
    returns without error and leaves the collection, its size, and the
    stored state unchanged. *)
Theorem remove_absent_is_noop (w : World) (i : string) :
  ¬ present i (resources (self w)) →
  let '(res, w') := remove_resource i w in
  res = Ok tt ∧ w' = w ∧
  resources (self w') = resources (self w) ∧
  length (resources (self w')) = length (resources (self w)) ∧
  disk w' = disk w.
Proof.
  intros Hp. by rewrite remove_resource_absent.
Qed.

(** C8: in a catalog with unique identifiers holding a record with
    identifier [id], [remove(id)] makes the collection one shorter,
    takes out exactly the record bearing [id] and keeps the others in
    order, and a following [find(id)] returns "not found". *)
Theorem remove_present_drops_it (w : World) (i : string) :
  unique_ids (resources (self w)) →
  present i (resources (self w)) →
  let w' := snd (remove_resource i w) in
  length (resources (self w')) + 1 = length (resources (self w)) ∧
  (∃ l1 r l2, resources (self w) = l1 ++ r :: l2 ∧ resource_id r = i ∧
              resources (self w') = l1 ++ l2 ∧ ¬ present i (l1 ++ l2)) ∧
  get_resource i (self w') = None.
Proof.
  intros Hu Hp w'. subst w'.
  destruct (remove_resource_present i w Hp) as (l1 & r & l2 & E & Hid & Hn & ->).
  rewrite written_resources. rewrite E in Hu.
  apply unique_ids_drop in Hu as [_ Hu]. rewrite Hid in Hu.
  repeat split.
  - rewrite E, !length_app. simpl. lia.
  - by exists l1, r, l2.
  - apply get_resource_None. by rewrite written_resources.
Qed.

(** ** Mutation first, write second *)

(** C6: when the storage write fails during [add] of a record whose
    identifier is free, or during [remove] of a present identifier, the
    write's exception is what the call raises, the write is attempted
    once, and the in-memory collection already holds the mutation. *)
Theorem write_failure_after_mutation (w : World) (e : exn) (d' : Disk) :
  (∀ resource,
     ¬ present (resource_id resource) (resources (self w)) →
     save_data (storage_file (self w))
               (List.map _resource_to_dict (resources (self w) ++ [resource]))
               (disk w) = (Raise e, d') →
     add_resource resource w =
       (Raise e, mkWorld (set_resources (resources (self w) ++ [resource]) (self w)) d')) ∧
  (∀ i l1 r l2,
     resources (self w) = l1 ++ r :: l2 → resource_id r = i → ¬ present i l1 →
     save_data (storage_file (self w))
               (List.map _resource_to_dict (l1 ++ l2))
               (disk w) = (Raise e, d') →
     remove_resource i w =
       (Raise e, mkWorld (set_resources (l1 ++ l2) (self w)) d')).
Proof.
  split.
  - intros resource Hp Hs. rewrite add_resource_fresh by done.
    unfold written. simpl. by rewrite Hs.
  - intros i l1 r l2 E Hid Hn Hs.
    rewrite (remove_resource_first i w l1 r l2) by done.
    unfold written. simpl. by rewrite Hs.
Qed.

(** ** Insertion order *)

Lemma add_all_run (rs : list LibraryResource) : ∀ w : World,
  (∀ path data d, fst (save_data path data d) = Ok tt) →
  unique_ids (resources (self w) ++ rs) →
  fst (add_all rs w) = Ok tt ∧
  resources (self (snd (add_all rs w))) = resources (self w) ++ rs.
Proof.
  induction rs as [|r rs IH]; intros w Hs Hu; simpl.
  - by rewrite app_nil_r.
  - assert (¬ present (resource_id r) (resources (self w))) as Hp.
    { apply unique_ids_drop in Hu as [_ Hu].
      by apply not_present_app in Hu as [Hu _]. }
    unfold bind. rewrite add_resource_fresh by done.
    pose proof (written_resources (resources (self w) ++ [r]) w) as Hr.
    unfold written in *. simpl in *.
    pose proof (Hs (storage_file (self w))
                   (List.map _resource_to_dict (resources (self w) ++ [r])) (disk w))
      as Hok.
    destruct (save_data _ _ _) as [res d]. simpl in *. subst res.
    destruct (IH (mkWorld (set_resources (resources (self w) ++ [r]) (self w)) d))
      as [IH1 IH2].
    + done.
    + simpl. by rewrite <- app_assoc.
    + split; [done|]. rewrite IH2. simpl. by rewrite <- app_assoc.
Qed.

(** C7: starting from an empty catalog, a sequence of [add] calls with
    pairwise-distinct identifiers succeeds at every call (the storage
    accepting its writes), and [list()] then returns the added records
    in insertion order, as many as there were adds. *)
Theorem adds_keep_insertion_order (w : World) (rs : list LibraryResource) :
  resources (self w) = [] →
  unique_ids rs →
  (∀ path data d, fst (save_data path data d) = Ok tt) →
  let w' := snd (add_all rs w) in
  fst (add_all rs w) = Ok tt ∧
  get_all_resources (self w') = rs ∧
  length (get_all_resources (self w')) = length rs.
Proof.
  intros He Hu Hs w'. subst w'.
  destruct (add_all_run rs w Hs) as [H1 H2]; [by rewrite He|].
  rewrite He in H2. unfold get_all_resources. by rewrite H2.
Qed.
End Runs.

(** ** Search *)

Lemma starts_with_spec sub s :
  starts_with sub s = true ↔ ∃ post, s = sub +:+ post.
Proof.
  revert s. induction sub as [|a sub IH]; intros s; simpl.
  - split; [eauto|done].
  - destruct s as [|b s].
    + split; [done|]. by intros [post Hp].
    + rewrite andb_true_iff, Ascii.eqb_eq, IH. split.
      * intros [-> [post ->]]. by exists post.
      * intros [post [= -> ->]]. eauto.
Qed.

Lemma str_in_spec sub s : str_in sub s = true ↔ substring_of sub s.
Proof.
  unfold substring_of. split.
  - induction s as [|c s IH]; simpl; rewrite orb_true_iff, starts_with_spec.
    + intros [[post Hp]|?]; [|done]. by exists "", post.
    + intros [[post Hp]|Hs].
      * by exists "", post.
      * destruct (IH Hs) as (pre & post & ->). by exists (String c pre), post.
  - intros (pre & post & ->). induction pre as [|c pre IH]; simpl.
    + assert (starts_with sub (sub +:+ post) = true) as Hsw.
      { apply starts_with_spec. eauto. }
      destruct (sub +:+ post); simpl; by rewrite Hsw.
    + rewrite IH. apply orb_true_r.
Qed.

Lemma str_in_empty s : str_in "" s = true.
Proof. by destruct s. Qed.

Lemma filter_selects {A} (f : A → bool) (P : A → Prop) (l : list A) :
  (∀ x, f x = true ↔ P x) → selects P l (List.filter f l).
Proof.
  intros Hf. induction l as [|x l IH]; simpl; [constructor|].
  destruct (f x) eqn:Ex.
  - apply selects_keep; [by apply Hf|done].
  - apply selects_skip; [|done]. rewrite <- Hf. congruence.
Qed.

(** The selected subsequence is determined by the list and the test. *)
Lemma selects_unique {A} (P : A → Prop) l res1 res2 :
  selects P l res1 → selects P l res2 → res1 = res2.
Proof.
  intros H1. revert res2.
  induction H1 as [|x l res Hx _ IH|x l res Hx _ IH]; intros res2 H2;
    inversion H2; subst; try contradiction.
  - reflexivity.
  - f_equal. by apply IH.
  - by apply IH.
Qed.

Lemma filter_true {A} (f : A → bool) (l : list A) :
  (∀ x, f x = true) → List.filter f l = l.
Proof.
  intros Hf. induction l as [|x l IH]; simpl; [done|]. by rewrite Hf, IH.
Qed.

Lemma filter_selects_on {A} (f : A → bool) (P : A → Prop) (l : list A) :
  (∀ x, x ∈ l → (f x = true ↔ P x)) → selects P l (List.filter f l).
Proof.
  induction l as [|x l IH]; intros Hf; simpl; [constructor|].
  assert (selects P l (List.filter f l)) as Hl.
  { apply IH. intros y Hy. apply Hf. by right. }
  destruct (f x) eqn:Ex.
  - apply selects_keep; [|done]. apply Hf; [left|done].
  - apply selects_skip; [|done]. intros HP. apply Hf in HP; [congruence|left].
Qed.

(** *** Lower-casing ASCII text letter by letter *)

Lemma forall_bool_spec (f : bool → bool) : forall_bool f = true → ∀ b, f b = true.
Proof.
  unfold forall_bool. intros Hf b. apply andb_true_iff in Hf as [Ht Hf].
  by destruct b.
Qed.

Lemma forall_ascii_spec (P : ascii → bool) : forall_ascii P = true → ∀ c, P c = true.
Proof.
  intros HP [b0 b1 b2 b3 b4 b5 b6 b7]. unfold forall_ascii in HP.
  pose proof (forall_bool_spec _ HP b0) as H0.
  pose proof (forall_bool_spec _ H0 b1) as H1.
  pose proof (forall_bool_spec _ H1 b2) as H2.
  pose proof (forall_bool_spec _ H2 b3) as H3.
  pose proof (forall_bool_spec _ H3 b4) as H4.
  pose proof (forall_bool_spec _ H4 b5) as H5.
  pose proof (forall_bool_spec _ H5 b6) as H6.
  exact (forall_bool_spec _ H6 b7).
Qed.

Lemma ascii_lower_same (c d : ascii) :
  ascii_lower c = ascii_lower d → d = c ∨ d = swap_case c.
Proof.
  assert (forall_ascii (fun c => forall_ascii (fun d =>
            implb (Ascii.eqb (ascii_lower c) (ascii_lower d))
                  (Ascii.eqb d c || Ascii.eqb d (swap_case c)))) = true) as Hall
    by (vm_compute; reflexivity).
  pose proof (forall_ascii_spec _ (forall_ascii_spec _ Hall c) d) as Hcd.
  simpl in Hcd. intros E. apply Ascii.eqb_eq in E. rewrite E in Hcd. simpl in Hcd.
  apply orb_true_iff in Hcd as [Hcd|Hcd]; apply Ascii.eqb_eq in Hcd; tauto.
Qed.

Lemma ascii_str_lower_app (a b : string) :
  ascii_str_lower (a +:+ b) = ascii_str_lower a +:+ ascii_str_lower b.
Proof. induction a as [|c a IH]; simpl; [done|]. by rewrite IH. Qed.

Lemma ascii_str_lower_split (s a b : string) :
  ascii_str_lower s = a +:+ b →
  ∃ s1 s2, s = s1 +:+ s2 ∧ ascii_str_lower s1 = a ∧ ascii_str_lower s2 = b.
Proof.
  revert s. induction a as [|x a IH]; intros s E; simpl in E.
  - by exists "", s.
  - destruct s as [|c s]; simpl in E; [done|]. injection E as Ec Es.
    destruct (IH s Es) as (s1 & s2 & -> & H1 & H2).
    exists (String c s1), s2. simpl. by rewrite Ec, H1.
Qed.

Lemma ascii_str_lower_variant (t q : string) :
  ascii_str_lower t = ascii_str_lower q ↔ case_variant t q.
Proof.
  split.
  - revert q. induction t as [|c t IH]; intros q E; destruct q as [|d q];
      simpl in E; try done; [constructor|].
    injection E as Ec Es.
    destruct (ascii_lower_same c d Ec) as [->| ->]; constructor; by apply IH.
  - apply (@lower_case_variant ascii_case_map).
Qed.

Lemma ascii_contains_up_to_case (query s : string) :
  substring_of (ascii_str_lower query) (ascii_str_lower s) ↔
  contains_up_to_case query s.
Proof.
  unfold substring_of, contains_up_to_case. split.
  - intros (a & b & E).
    apply ascii_str_lower_split in E as (pre & rest & -> & <- & E).
    apply ascii_str_lower_split in E as (t & post & -> & E & <-).
    exists pre, t, post. split; [done|]. by apply ascii_str_lower_variant.
  - intros (pre & t & post & -> & Hv). apply ascii_str_lower_variant in Hv.
    exists (ascii_str_lower pre), (ascii_str_lower post).
    by rewrite !ascii_str_lower_app, Hv.
Qed.

Section SearchProperties.
Context `{CaseMap}.

Lemma matches_hit query r : matches (lower query) r = true ↔ hit query r.
Proof.
  unfold matches, hit, lowered_contains. by rewrite orb_true_iff, !str_in_spec.
Qed.


End SearchProperties.



(** ** Serialization *)

Lemma dict_round_trip (r : LibraryResource) :
  _dict_to_resource (_resource_to_dict r) = Ok r.
Proof.
  destruct r as [[i t a n p]|[i t a n p] s f|[i t a n p] d x];
    vm_compute; reflexivity.
Qed.

Lemma dict_type_tag (r : LibraryResource) :
  _resource_to_dict r !! "type" = Some (VStr (class_name r)).
Proof.
  destruct r as [[i t a n p]|[i t a n p] s f|[i t a n p] d x];
    vm_compute; reflexivity.
Qed.

Lemma dict_keys (r : LibraryResource) :
  dom (_resource_to_dict r) = list_to_set ("type" :: common_fields ++ variant_fields r).
Proof.
  destruct r as [[i t a n p]|[i t a n p] s f|[i t a n p] d x];
    vm_compute; reflexivity.
Qed.

Lemma mapM_round_trip (rs : list LibraryResource) :
  mapM _dict_to_resource (List.map _resource_to_dict rs) = Ok rs.
Proof.
  induction rs as [|r rs IH]; simpl; [done|].
  rewrite dict_round_trip. simpl. rewrite IH. done.
Qed.

Section Persistence.
Context `{Storage}.

Lemma _save_resources_run (w : World) :
  _save_resources w = written (resources (self w)) w.
Proof.
  unfold _save_resources, written, bind, gets, on_disk. simpl.
  destruct (save_data _ _ _) as [res d]. by destruct w as [[file rs] d0].
Qed.

Lemma __init___run (file : string) (d : Disk) (rs : list LibraryResource) :
  fst (load_data file d) = Ok (List.map _resource_to_dict rs) →
  __init__ file d = (Ok (mkLibraryManager file rs), snd (load_data file d)).
Proof.
  intros Hl. unfold __init__, _load_resources, bind, gets, on_disk. simpl.
  destruct (load_data file d) as [res d']. simpl in *. subst res.
  by rewrite mapM_round_trip.
Qed.

(** C4: deserializing the dictionary that serialization produces for a
    record of any of the three variants gives back that record; the
    dictionary is tagged with the variant's class name and its keys are
    the tag, the common attributes and the attributes of that variant
    only; hence, over a storage that returns what was last saved, saving
    a collection and loading it again yields the same sequence. *)
Theorem serialization_round_trip :
  (∀ r, _dict_to_resource (_resource_to_dict r) = Ok r) ∧
  (∀ r, _resource_to_dict r !! "type" = Some (VStr (class_name r)) ∧
        dom (_resource_to_dict r) =
          list_to_set ("type" :: common_fields ++ variant_fields r)) ∧
  ((∀ path data d d',
      save_data path data d = (Ok tt, d') → fst (load_data path d') = Ok data) →
   ∀ w w', _save_resources w = (Ok tt, w') →
     fst (__init__ (storage_file (self w)) (disk w')) = Ok (self w) ∧
     self w' = self w).
Proof.
  split; [exact dict_round_trip|]. split.
  - intros r. split; [apply dict_type_tag|apply dict_keys].
  - intros Hlaw w w' Hs. rewrite _save_resources_run in Hs.
    unfold written in Hs.
    destruct (save_data _ _ _) as [res d] eqn:Es. injection Hs as -> <-.
    simpl in *. apply Hlaw in Es.
    rewrite (__init___run _ _ _ Es). by destruct w as [[file rs] d0].
Qed.

(** C10: construction does not check identifier uniqueness. When the
    storage holds the dictionaries of two records with equal
    identifiers, loading succeeds and the new catalog's collection
    contains both, so it violates the uniqueness invariant from the
    start. *)
Theorem construction_keeps_duplicates (file : string) (d d' : Disk)
    (r1 r2 : LibraryResource) :
  resource_id r1 = resource_id r2 →
  load_data file d = (Ok [_resource_to_dict r1; _resource_to_dict r2], d') →
  ∃ m, __init__ file d = (Ok m, d') ∧
       resources m = [r1; r2] ∧
       ¬ unique_ids (resources m).
Proof.
  intros Hid Hl. exists (mkLibraryManager file [r1; r2]).
  split; [|split; [done|]].
  { rewrite (__init___run file d [r1; r2]); by rewrite Hl. }
  simpl. intros Hu. by specialize (Hu 0%nat 1%nat r1 r2 eq_refl eq_refl Hid).
Qed.
End Persistence.

(** ** Dispatch on the type tag *)

Lemma dict_eq_on_keys (m1 m2 : Dict) (ks : list string) :
  dom m1 = list_to_set ks → dom m2 = list_to_set ks →
  Forall (fun k => m1 !! k = m2 !! k) ks → m1 = m2.
Proof.
  intros H1 H2 Hks. apply map_eq. intros k.
  destruct (decide (k ∈ ks)) as [Hk|Hk].
  - by apply (proj1 (Forall_forall _ _) Hks).
  - assert (k ∉ dom m1) as N1 by (rewrite H1; set_solver).
    assert (k ∉ dom m2) as N2 by (rewrite H2; set_solver).
    apply not_elem_of_dom in N1, N2. congruence.
Qed.

Lemma well_formed_lookup fields data k :
  well_formed fields data → k ∈ "type" :: fields → is_Some (data !! k).
Proof.
  intros [Hd _] Hk. apply elem_of_dom. rewrite Hd. by apply elem_of_list_to_set.
Qed.

Ltac in_list :=
  unfold recognized, EBook_fields, Audiobook_fields, common_fields; simpl;
  repeat first [apply list_elem_of_here | apply list_elem_of_further].

Lemma unknown_tag_rejected (data : Dict) (t : value) :
  data !! "type" = Some t →
  (∀ tag fields, (tag, fields) ∈ recognized → t ≠ VStr tag) →
  _dict_to_resource data = Raise (UnrecognizedType t).
Proof.
  intros Ht Hn. unfold _dict_to_resource, dict_pop. rewrite Ht. simpl.
  assert (∀ tag fields, (tag, fields) ∈ recognized → py_eq_str t tag = false) as Hf.
  { intros tag fields Hin. destruct t; simpl; try done.
    apply String.eqb_neq. intros ->. by apply (Hn tag fields). }
  rewrite (Hf "EBook" EBook_fields), (Hf "Audiobook" Audiobook_fields),
    (Hf "Book" common_fields); [done|in_list..].
Qed.

Ltac same_entry :=
  match goal with
  | E : ?data !! ?k = Some _ |- _ !! ?k = ?data !! ?k =>
      rewrite E; vm_compute; reflexivity
  end.

Lemma recognized_tag_constructs (data : Dict) (tag : string) (fields : list string) :
  (tag, fields) ∈ recognized →
  data !! "type" = Some (VStr tag) →
  well_formed fields data →
  ∃ r, _dict_to_resource data = Ok r ∧ class_name r = tag ∧ _resource_to_dict r = data.
Proof.
  intros Hrec Ht Hwf.
  assert (∀ k, k ∈ "type" :: fields → is_Some (data !! k)) as Hsome.
  { intros k. by apply well_formed_lookup. }
  destruct Hwf as [Hdom Hstr].
  destruct (Hstr "resource_id") as [i Hi]; [in_list|].
  destruct (Hstr "title") as [t Htt]; [in_list|].
  destruct (Hstr "author") as [a Ha]; [in_list|].
  assert (∀ k, k ≠ "type" → delete "type" data !! k = data !! k) as Hdel.
  { intros k Hk. by rewrite lookup_delete_ne. }
  unfold recognized in Hrec.
  apply elem_of_cons in Hrec as [[= -> ->]|Hrec];
    [|apply elem_of_cons in Hrec as [[= -> ->]|Hrec];
      [|apply list_elem_of_singleton in Hrec as [= -> ->]]].
  - destruct (Hsome "isbn") as [n Hn]; [in_list|].
    destruct (Hsome "page_count") as [p Hp]; [in_list|].
    destruct (Hsome "file_size_mb") as [s Hs]; [in_list|].
    destruct (Hsome "file_format") as [f Hf]; [in_list|].
    exists (EBook (mkAttrs i t a n p) s f). repeat split.
    + unfold _dict_to_resource, dict_pop. rewrite Ht. simpl.
      unfold new_EBook, kwargs_bound. rewrite bool_decide_eq_true_2.
      * unfold new_Attrs, arg_str, arg.
        rewrite !Hdel by done. rewrite Hi, Htt, Ha, Hn, Hp, Hs, Hf. done.
      * rewrite dom_delete_L, Hdom. by vm_compute.
    + apply (dict_eq_on_keys _ _ ("type" :: EBook_fields)); [apply dict_keys|done|].
      repeat constructor; same_entry.
  - destruct (Hsome "isbn") as [n Hn]; [in_list|].
    destruct (Hsome "page_count") as [p Hp]; [in_list|].
    destruct (Hsome "duration_minutes") as [s Hs]; [in_list|].
    destruct (Hsome "narrator") as [f Hf]; [in_list|].
    exists (Audiobook (mkAttrs i t a n p) s f). repeat split.
    + unfold _dict_to_resource, dict_pop. rewrite Ht. simpl.
      unfold new_Audiobook, kwargs_bound. rewrite bool_decide_eq_true_2.
      * unfold new_Attrs, arg_str, arg.
        rewrite !Hdel by done. rewrite Hi, Htt, Ha, Hn, Hp, Hs, Hf. done.
      * rewrite dom_delete_L, Hdom. by vm_compute.
    + apply (dict_eq_on_keys _ _ ("type" :: Audiobook_fields));
        [apply dict_keys|done|].
      repeat constructor; same_entry.
  - destruct (Hsome "isbn") as [n Hn]; [in_list|].
    destruct (Hsome "page_count") as [p Hp]; [in_list|].
    exists (Book (mkAttrs i t a n p)). repeat split.
    + unfold _dict_to_resource, dict_pop. rewrite Ht. simpl.
      unfold new_Book, kwargs_bound. rewrite bool_decide_eq_true_2.
      * unfold new_Attrs, arg_str, arg.
        rewrite !Hdel by done. rewrite Hi, Htt, Ha, Hn, Hp. done.
      * rewrite dom_delete_L, Hdom. by vm_compute.
    + apply (dict_eq_on_keys _ _ ("type" :: common_fields)); [apply dict_keys|done|].
      repeat constructor; same_entry.
Qed.

Lemma arg_str_Ok callee (data : Dict) k s :
  arg_str callee data k = Ok s → data !! k = Some (VStr s).
Proof.
  unfold arg_str, arg. destruct (data !! k) as [v|]; simpl; [|done].
  destruct v; simpl; congruence.
Qed.

Lemma new_Attrs_strings callee (data : Dict) c :
  new_Attrs callee data = Ok c →
  ∀ k, k ∈ ["resource_id"; "title"; "author"] → ∃ s, data !! k = Some (VStr s).
Proof.
  unfold new_Attrs. intros Hc.
  destruct (arg_str callee data "resource_id") as [i|] eqn:Ei; simpl in Hc; [|done].
  destruct (arg_str callee data "title") as [t|] eqn:Et; simpl in Hc; [|done].
  destruct (arg_str callee data "author") as [a|] eqn:Ea; simpl in Hc; [|done].
  apply arg_str_Ok in Ei, Et, Ea. intros k Hk.
  repeat (apply elem_of_cons in Hk as [->|Hk]; [eauto|]).
  by apply elem_of_nil in Hk.
Qed.

Lemma popped_well_formed (fields : list string) (data : Dict) (tag : value) c callee :
  data !! "type" = Some tag →
  kwargs_bound fields (delete "type" data) = true →
  new_Attrs callee (delete "type" data) = Ok c →
  well_formed fields data.
Proof.
  intros Ht Hb Hc. split.
  - apply bool_decide_eq_true in Hb. rewrite dom_delete_L in Hb.
    rewrite list_to_set_cons, <- Hb.
    assert ("type" ∈ dom data) as Hin by (apply elem_of_dom; eauto).
    apply set_eq. intros k. rewrite elem_of_union, elem_of_difference, elem_of_singleton.
    destruct (decide (k = "type")) as [->|Hk]; tauto.
  - intros k Hk. destruct (new_Attrs_strings _ _ _ Hc k Hk) as [s Hs].
    exists s. apply lookup_delete_Some in Hs. tauto.
Qed.

Lemma new_Attrs_error callee (data : Dict) (e : exn) :
  (∀ k, k ∈ common_fields → is_Some (data !! k)) →
  new_Attrs callee data = Raise e → e = NotModelled.
Proof.
  intros Hs.
  destruct (Hs "resource_id") as [v1 E1]; [in_list|].
  destruct (Hs "title") as [v2 E2]; [in_list|].
  destruct (Hs "author") as [v3 E3]; [in_list|].
  destruct (Hs "isbn") as [v4 E4]; [in_list|].
  destruct (Hs "page_count") as [v5 E5]; [in_list|].
  unfold new_Attrs, arg_str, arg. rewrite E1, E2, E3, E4, E5.
  destruct v1, v2, v3; simpl; congruence.
Qed.

(** With a recognized tag and exactly the keys of the variant, the only
    outcome besides the record is the marker of a record the embedding
    does not represent: no exception of the code. *)
Lemma exact_keys_no_exception (data : Dict) (tag : string) (fields : list string) :
  (tag, fields) ∈ recognized →
  data !! "type" = Some (VStr tag) →
  dom data = list_to_set ("type" :: fields) →
  (∃ r, _dict_to_resource data = Ok r ∧ class_name r = tag ∧
        _resource_to_dict r = data) ∨
  _dict_to_resource data = Raise NotModelled.
Proof.
  intros Hrec Ht Hdom.
  assert (∀ k, k ∈ common_fields → is_Some (delete "type" data !! k)) as Hsome.
  { intros k Hk. rewrite lookup_delete_ne.
    - apply elem_of_dom. rewrite Hdom. apply elem_of_list_to_set. right.
      unfold recognized in Hrec.
      repeat (apply elem_of_cons in Hrec as [[= -> ->]|Hrec];
              [unfold EBook_fields, Audiobook_fields; rewrite ?elem_of_app; tauto|]).
      by apply elem_of_nil in Hrec.
    - intros <-. revert Hk. in_list. vm_compute.
      intros Hk. repeat (apply elem_of_cons in Hk as [[=]|Hk]).
      by apply elem_of_nil in Hk. }
  assert (kwargs_bound fields (delete "type" data) = true) as Hb.
  { unfold kwargs_bound. apply bool_decide_eq_true_2. rewrite dom_delete_L, Hdom.
    unfold recognized in Hrec.
    repeat (apply elem_of_cons in Hrec as [[= -> ->]|Hrec]; [by vm_compute|]).
    by apply elem_of_nil in Hrec. }
  destruct (new_Attrs tag (delete "type" data)) as [c|e] eqn:Hc.
  - left. apply (recognized_tag_constructs data tag fields Hrec Ht).
    by apply (popped_well_formed fields data (VStr tag) c tag).
  - right. apply (new_Attrs_error _ _ _ Hsome) in Hc as Hn. subst e.
    unfold _dict_to_resource, dict_pop. rewrite Ht. simpl.
    unfold recognized in Hrec.
    repeat (apply elem_of_cons in Hrec as [[= -> ->]|Hrec];
            [simpl; unfold new_EBook, new_Audiobook, new_Book; by rewrite Hb, Hc|]).
    by apply elem_of_nil in Hrec.
Qed.



(** ** The properties at concrete catalogs *)

Lemma mem_storage_returns_saved (path : string) (data : list Dict) (d d' : MemDisk) :
  mem_save path data d = (Ok tt, d') → fst (mem_load path d') = Ok data.
Proof.
  intros [= <-]. simpl. by rewrite String.eqb_refl.
Qed.

Lemma unique_ids_dune : unique_ids [b1; e1].
Proof.
  apply unique_ids_NoDup. apply (bool_decide_unpack _). vm_compute. reflexivity.
Qed.

Lemma present_b1_dune : present "b1" [b1; e1].
Proof. exists b1. split; [left|reflexivity]. Qed.

Lemma absent_decide (i : string) (rs : list LibraryResource) :
  bool_decide (i ∈ resource_id <$> rs) = false → ¬ present i rs.
Proof.
  intros Hb Hp. apply present_ids in Hp.
  apply bool_decide_eq_false in Hb. contradiction.
Qed.

Lemma unique_ids_invariant_witness :
  unique_ids (resources (self (snd (add_resource a1 dune_world)))) ∧
  unique_ids (resources (self (snd (add_resource b1_again dune_world)))) ∧
  unique_ids (resources (self (snd (remove_resource "b1" dune_world)))).
Proof.
  pose proof (unique_ids_invariant dune_world unique_ids_dune) as [Hadd Hrem].
  split; [apply Hadd|]. split; [apply Hadd|apply Hrem].
Defined.

Lemma second_add_is_rejected_witness :
  add_resource b1_again (snd (add_resource b1 fresh_world))
    = (Raise (DuplicateIdentifier "b1"), snd (add_resource b1 fresh_world)) ∧
  resources (self (snd (add_resource b1 fresh_world))) = [b1] ∧
  b1 ∈ resources (self (snd (add_resource b1 fresh_world))) ∧
  (b1_again ∈ resources (self (snd (add_resource b1 fresh_world))) → b1_again = b1).
Proof.
  destruct (second_add_is_rejected fresh_world b1 b1_again eq_refl) as [Hraise Hkeep].
  split; [exact Hraise|]. apply Hkeep. apply absent_decide. vm_compute. reflexivity.
Defined.

Lemma remove_absent_is_noop_witness :
  remove_resource "a1" dune_world = (Ok tt, dune_world).
Proof.
  pose proof (remove_absent_is_noop dune_world "a1") as Hn.
  destruct (remove_resource "a1" dune_world) as [res w'].
  destruct Hn as (-> & -> & _).
  - apply absent_decide. vm_compute. reflexivity.
  - reflexivity.
Defined.

Lemma remove_present_drops_it_witness :
  length (resources (self (snd (remove_resource "b1" dune_world)))) + 1 = 2 ∧
  get_resource "b1" (self (snd (remove_resource "b1" dune_world))) = None.
Proof.
  destruct (remove_present_drops_it dune_world "b1" unique_ids_dune present_b1_dune)
    as (Hlen & _ & Hfind).
  split; [exact Hlen|exact Hfind].
Defined.

Lemma write_failure_after_mutation_witness :
  @add_resource protected_storage a1 protected_world
    = (Raise (OSError "Permission denied"),
       @mkWorld protected_storage (mkLibraryManager library_json [b1; e1; a1]) dune_disk) ∧
  @remove_resource protected_storage "b1" protected_world
    = (Raise (OSError "Permission denied"),
       @mkWorld protected_storage (mkLibraryManager library_json [e1]) dune_disk).
Proof.
  destruct (@write_failure_after_mutation protected_storage protected_world
              (OSError "Permission denied") dune_disk) as [Hadd Hrem].
  split.
  - apply (Hadd a1); [|reflexivity]. apply absent_decide. vm_compute. reflexivity.
  - apply (Hrem "b1" [] b1 [e1]); [reflexivity|reflexivity| |reflexivity].
    apply absent_decide. vm_compute. reflexivity.
Defined.

Lemma adds_keep_insertion_order_witness :
  fst (add_all [b1; e1; a1] fresh_world) = Ok tt ∧
  get_all_resources (self (snd (add_all [b1; e1; a1] fresh_world))) = [b1; e1; a1] ∧
  length (get_all_resources (self (snd (add_all [b1; e1; a1] fresh_world)))) = 3.
Proof.
  apply (adds_keep_insertion_order fresh_world [b1; e1; a1]).
  - reflexivity.
  - apply unique_ids_NoDup. apply (bool_decide_unpack _). vm_compute. reflexivity.
  - reflexivity.
Defined.


Lemma serialization_round_trip_witness :
  fst (__init__ library_json (snd (mem_save library_json
         (List.map _resource_to_dict [b1; e1; a1]) dune_disk)))
  = Ok (mkLibraryManager library_json [b1; e1; a1]).
Proof.
  destruct (@serialization_round_trip mem_storage) as (_ & _ & Hload).
  destruct (Hload mem_storage_returns_saved
              (@mkWorld mem_storage (mkLibraryManager library_json [b1; e1; a1]) dune_disk)
              (@mkWorld mem_storage (mkLibraryManager library_json [b1; e1; a1])
                 (snd (mem_save library_json
                         (List.map _resource_to_dict [b1; e1; a1]) dune_disk))))
    as [Hinit _].
  - reflexivity.
  - exact Hinit.
Defined.

Lemma construction_keeps_duplicates_witness :
  ∃ m, __init__ library_json clashing_disk = (Ok m, clashing_disk) ∧
       resources m = [b1; b1_again] ∧
       ¬ unique_ids (resources m).
Proof.
  apply (@construction_keeps_duplicates mem_storage library_json clashing_disk
           clashing_disk b1 b1_again); reflexivity.
Defined.


(** The scenario of the specification: [b1] and [e1] are added,
    [search("dune")] returns both in the order added, and after
    [remove("b1")] the catalog lists the electronic record only. *)
Example dune_scenario :
  let w := snd (add_all [b1; e1] fresh_world) in
  search_resources "dune" (self w) = [b1; e1] ∧
  get_all_resources (self (snd (remove_resource "b1" w))) = [e1].
Proof. vm_compute. split; reflexivity. Qed.

(** A record authored by "J.R.R. Tolkien" is found under either spelling
    of the query. *)
Example tolkien_either_case :
  search_resources "tolkien" (mkLibraryManager library_json [b1; e1; a1]) = [a1] ∧
  search_resources "TOLKIEN" (mkLibraryManager library_json [b1; e1; a1]) = [a1].
Proof. vm_compute. split; reflexivity. Qed.


(** * Further properties of the manager *)

(** ** Lookup by identifier *)

Lemma find_id_app (i : string) (l1 l2 : list LibraryResource) :
  List.find (fun r => String.eqb (resource_id r) i) (l1 ++ l2) =
  match List.find (fun r => String.eqb (resource_id r) i) l1 with
  | Some r => Some r
  | None => List.find (fun r => String.eqb (resource_id r) i) l2
  end.
Proof.
  induction l1 as [|x l1 IH]; simpl; [done|].
  by destruct (String.eqb (resource_id x) i).
Qed.

Lemma find_id_None (i : string) (rs : list LibraryResource) :
  List.find (fun r => String.eqb (resource_id r) i) rs = None ↔ ¬ present i rs.
Proof. apply (get_resource_None i (mkLibraryManager "" rs)). Qed.

Lemma find_id_other (i j : string) (r : LibraryResource) (l : list LibraryResource) :
  resource_id r = i → j ≠ i →
  List.find (fun x => String.eqb (resource_id x) j) (r :: l) =
  List.find (fun x => String.eqb (resource_id x) j) l.
Proof.
  intros Hr Hj. simpl. destruct (String.eqb (resource_id r) j) eqn:E; [|done].
  apply String.eqb_eq in E. congruence.
Qed.

(** [find(id)] returns the first record of the collection that bears the
    identifier, also when several do, and "not found" exactly when no
    record bears it. *)
Theorem get_resource_first_match (m : LibraryManager) (i : string) :
  (∀ r, get_resource i m = Some r ↔
        ∃ l1 l2, resources m = l1 ++ r :: l2 ∧ resource_id r = i ∧ ¬ present i l1) ∧
  (get_resource i m = None ↔ ¬ present i (resources m)).
Proof.
  split; [intros r; apply get_resource_Some|apply get_resource_None].
Qed.

Section Composition.
Context `{Storage}.

(** After [add] of a record whose identifier is free, whether the write
    succeeded or not, [find] of that identifier returns the record, and
    [find] of any other identifier returns what it returned before. *)
Theorem add_then_find (w : World) (resource : LibraryResource) :
  ¬ present (resource_id resource) (resources (self w)) →
  let w' := snd (add_resource resource w) in
  get_resource (resource_id resource) (self w') = Some resource ∧
  ∀ j, j ≠ resource_id resource →
       get_resource j (self w') = get_resource j (self w).
Proof.
  intros Hp w'. subst w'. rewrite add_resource_fresh by done.
  unfold get_resource. rewrite written_resources. split.
  - rewrite find_id_app. apply find_id_None in Hp. rewrite Hp. simpl.
    by rewrite String.eqb_refl.
  - intros j Hj. rewrite find_id_app.
    destruct (List.find _ (resources (self w))); [done|].
    by rewrite (find_id_other (resource_id resource) j).
Qed.

(** [remove(id)] leaves the lookups of all other identifiers as they
    were, with or without unique identifiers in the collection. *)
Theorem remove_keeps_other_lookups (w : World) (i j : string) :
  j ≠ i →
  get_resource j (self (snd (remove_resource i w))) = get_resource j (self w).
Proof.
  intros Hj. destruct (present_dec i (resources (self w))) as [Hp|Hp].
  - destruct (remove_resource_present i w Hp) as (l1 & r & l2 & E & Hid & _ & ->).
    unfold get_resource. rewrite written_resources, E, !find_id_app.
    destruct (List.find _ l1); [done|]. by rewrite (find_id_other i j).
  - by rewrite remove_resource_absent.
Qed.

(** In a collection where several records bear the identifier (as a
    load can produce), [remove(id)] takes out the first of them only: the
    records before and after it stay, and [find(id)] then returns the next
    record bearing the identifier, if there is one. *)
Theorem remove_drops_first_only (w : World) (i : string)
    (l1 l2 : list LibraryResource) (r : LibraryResource) :
  resources (self w) = l1 ++ r :: l2 →
  resource_id r = i →
  ¬ present i l1 →
  let w' := snd (remove_resource i w) in
  resources (self w') = l1 ++ l2 ∧
  get_resource i (self w') =
    get_resource i (mkLibraryManager (storage_file (self w)) l2).
Proof.
  intros E Hid Hn w'. subst w'.
  rewrite (remove_resource_first i w l1 r l2) by done.
  unfold get_resource. rewrite written_resources. split; [done|].
  rewrite find_id_app. apply find_id_None in Hn. by rewrite Hn.
Qed.

(** Adding a record whose identifier is free and removing that identifier
    again gives back the manager as it was, whatever the storage did. *)
Theorem add_then_remove_restores (w : World) (resource : LibraryResource) :
  ¬ present (resource_id resource) (resources (self w)) →
  self (snd (remove_resource (resource_id resource) (snd (add_resource resource w))))
  = self w.
Proof.
  intros Hp. rewrite add_resource_fresh by done.
  rewrite (remove_resource_first (resource_id resource) _
             (resources (self w)) resource []).
  - unfold written. simpl.
    destruct (save_data _ _ _) as [res1 d1]. simpl.
    destruct (save_data _ _ _) as [res2 d2]. simpl.
    rewrite app_nil_r. by destruct w as [[file rs] d].
  - by rewrite written_resources.
  - done.
  - done.
Qed.

(** With unique identifiers, a second [remove] of the same identifier is a
    no-op: it returns without error and changes neither the manager nor
    the disk. *)
Theorem remove_twice_is_remove_once (w : World) (i : string) :
  unique_ids (resources (self w)) →
  remove_resource i (snd (remove_resource i w)) = (Ok tt, snd (remove_resource i w)).
Proof.
  intros Hu. apply remove_resource_absent.
  destruct (present_dec i (resources (self w))) as [Hp|Hp].
  - destruct (remove_resource_present i w Hp) as (l1 & r & l2 & E & Hid & _ & ->).
    rewrite written_resources. rewrite E in Hu.
    apply unique_ids_drop in Hu as [_ Hu]. by rewrite Hid in Hu.
  - by rewrite remove_resource_absent.
Qed.

(** Mutations change the membership of the collection only: after any
    [add] the old collection is a prefix of the new one, after any
    [remove] the new collection is a subsequence of the old one, and
    neither changes the storage file of the manager. *)
Theorem mutations_change_membership_only (w : World) :
  (∀ resource,
     let w' := snd (add_resource resource w) in
     resources (self w) `prefix_of` resources (self w') ∧
     storage_file (self w') = storage_file (self w)) ∧
  (∀ i,
     let w' := snd (remove_resource i w) in
     resources (self w') `sublist_of` resources (self w) ∧
     storage_file (self w') = storage_file (self w)).
Proof.
  split.
  - intros resource w'. subst w'.
    destruct (present_dec (resource_id resource) (resources (self w))) as [Hp|Hp].
    + by rewrite add_resource_duplicate.
    + rewrite add_resource_fresh, written_resources, written_storage_file by done.
      split; [by apply prefix_app_r|done].
  - intros i w'. subst w'.
    destruct (present_dec i (resources (self w))) as [Hp|Hp].
    + destruct (remove_resource_present i w Hp) as (l1 & r & l2 & E & _ & _ & ->).
      rewrite written_resources, written_storage_file, E. split; [|done].
      apply sublist_app; [done|]. by apply sublist_cons.
    + by rewrite remove_resource_absent.
Qed.
End Composition.

(** ** Storage after a mutation, and loading *)

Lemma mapM_stops_at_failure (good rest : list Dict) (bad : Dict)
    (rs : list LibraryResource) (e : exn) :
  mapM _dict_to_resource good = Ok rs →
  _dict_to_resource bad = Raise e →
  mapM _dict_to_resource (good ++ bad :: rest) = Raise e.
Proof.
  revert rs. induction good as [|g good IH]; intros rs Hg Hb; simpl in *.
  - by rewrite Hb.
  - destruct (_dict_to_resource g) as [r|e']; simpl in *; [|done].
    destruct (mapM _dict_to_resource good) as [rs'|e'] eqn:Em; simpl in *; [|done].
    by rewrite (IH rs').
Qed.

Section Mirror.
Context `{Storage}.

Lemma written_is_loaded (rs : list LibraryResource) (w w' : World) :
  (∀ path data d d',
     save_data path data d = (Ok tt, d') → fst (load_data path d') = Ok data) →
  written rs w = (Ok tt, w') →
  fst (__init__ (storage_file (self w')) (disk w')) = Ok (self w').
Proof.
  intros Hlaw Hw. unfold written in Hw.
  destruct (save_data _ _ _) as [res d] eqn:Es. injection Hw as -> <-.
  simpl in *. apply Hlaw in Es. by rewrite (__init___run _ _ _ Es).
Qed.

(** Over a storage that returns what was last saved, the disk mirrors the
    memory after every mutation that returned: constructing a manager
    from the disk left by a successful [add], or by a successful [remove]
    of a present identifier, yields the manager that call left. *)
Theorem successful_mutation_is_persisted (w w' : World) :
  (∀ path data d d',
     save_data path data d = (Ok tt, d') → fst (load_data path d') = Ok data) →
  (∀ resource,
     add_resource resource w = (Ok tt, w') →
     fst (__init__ (storage_file (self w')) (disk w')) = Ok (self w')) ∧
  (∀ i,
     present i (resources (self w)) →
     remove_resource i w = (Ok tt, w') →
     fst (__init__ (storage_file (self w')) (disk w')) = Ok (self w')).
Proof.
  intros Hlaw. split.
  - intros resource Ha.
    destruct (present_dec (resource_id resource) (resources (self w))) as [Hp|Hp].
    + rewrite add_resource_duplicate in Ha by done. discriminate Ha.
    + rewrite add_resource_fresh in Ha by done. by eapply written_is_loaded.
  - intros i Hp Hr.
    destruct (remove_resource_present i w Hp) as (l1 & r & l2 & _ & _ & _ & E).
    rewrite E in Hr. by eapply written_is_loaded.
Qed.

(** Construction loads all records or none: a read failure of the storage
    is raised by the constructor, and so is the exception of the first
    stored dictionary that does not deserialize, whatever follows it; the
    constructor only reads the storage. *)
Theorem load_is_all_or_nothing (file : string) (d : Disk) :
  (∀ e, fst (load_data file d) = Raise e →
        __init__ file d = (Raise e, snd (load_data file d))) ∧
  (∀ good bad rest rs e,
     fst (load_data file d) = Ok (good ++ bad :: rest) →
     mapM _dict_to_resource good = Ok rs →
     _dict_to_resource bad = Raise e →
     __init__ file d = (Raise e, snd (load_data file d))).
Proof.
  split.
  - intros e Hl. unfold __init__, _load_resources, bind, gets, on_disk. simpl.
    destruct (load_data file d) as [res d']. simpl in *. by subst res.
  - intros good bad rest rs e Hl Hg Hb.
    unfold __init__, _load_resources, bind, gets, on_disk. simpl.
    destruct (load_data file d) as [res d']. simpl in *. subst res.
    by rewrite (mapM_stops_at_failure good rest bad rs e).
Qed.
End Mirror.

(** ** Serialization keeps records apart *)

(** [_dict_to_resource] consumes the tag of the dictionary it is given:
    whatever the outcome, the caller's dictionary afterwards is the
    original without ["type"], so a second call on it raises [KeyError];
    and the caller's dictionary is then the serialization of no record,
    in particular not of the record the call returned. *)
Theorem dict_to_resource_consumes_tag (data : Dict) :
  fst (_dict_to_resource_inplace data) = _dict_to_resource data ∧
  snd (_dict_to_resource_inplace data) = delete "type" data ∧
  _dict_to_resource_inplace (snd (_dict_to_resource_inplace data))
    = (Raise (KeyError "type"), delete "type" data) ∧
  (∀ r, snd (_dict_to_resource_inplace data) ≠ _resource_to_dict r).
Proof.
  assert (snd (_dict_to_resource_inplace data) = delete "type" data) as Hsnd.
  { unfold _dict_to_resource_inplace, dict_pop.
    destruct (data !! "type") as [t|] eqn:Ht; simpl; [done|].
    symmetry. by apply delete_id. }
  split; [|split; [done|split]].
  - unfold _dict_to_resource_inplace, _dict_to_resource, dict_pop.
    by destruct (data !! "type").
  - rewrite Hsnd. unfold _dict_to_resource_inplace, dict_pop.
    by rewrite lookup_delete_eq.
  - intros r E. rewrite Hsnd in E.
    pose proof (dict_type_tag r) as Ht. rewrite <- E, lookup_delete_eq in Ht.
    discriminate Ht.
Qed.

(** Records that serialize to the same dictionary are the same record. *)
Theorem encode_is_injective (r1 r2 : LibraryResource) :
  _resource_to_dict r1 = _resource_to_dict r2 → r1 = r2.
Proof.
  intros E. pose proof (dict_round_trip r1) as H1. rewrite E, dict_round_trip in H1.
  by injection H1.
Qed.

(** ** Search and the mutations *)

Lemma starts_with_refl (s : string) : starts_with s s = true.
Proof.
  induction s as [|c s IH]; simpl; [done|]. by rewrite Ascii.eqb_refl, IH.
Qed.

Lemma str_in_refl (s : string) : str_in s s = true.
Proof. destruct s; simpl; by rewrite ?Ascii.eqb_refl, ?starts_with_refl. Qed.

Section SearchComposition.
Context `{CaseMap} `{Storage}.

(** Searching for a record's own title, or its own author, in any
    spelling of the letters' case the record is stored with, finds that
    record. *)
Theorem search_finds_by_title_and_author (m : LibraryManager) (r : LibraryResource) :
  r ∈ resources m →
  r ∈ search_resources (title r) m ∧ r ∈ search_resources (author r) m.
Proof.
  intros Hin. unfold search_resources.
  split; apply list_elem_of_In, filter_In; (split; [by apply list_elem_of_In|]);
    unfold matches; rewrite str_in_refl; [done|apply orb_true_r].
Qed.

(** After [add] of a record whose identifier is free, a search returns
    what it returned before, followed by the new record when it matches
    the query: a new record comes last in every search result. *)
Theorem search_after_add (w : World) (resource : LibraryResource) (query : string) :
  ¬ present (resource_id resource) (resources (self w)) →
  search_resources query (self (snd (add_resource resource w))) =
  search_resources query (self w) ++
  (if matches (lower query) resource then [resource] else []).
Proof.
  intros Hp. rewrite add_resource_fresh by done.
  unfold search_resources. rewrite written_resources, List.filter_app. done.
Qed.

(** After [remove] of an identifier, a search returns a subsequence of
    what it returned before, and no longer returns the record that
    [find] returned for the identifier when identifiers are unique. *)
Theorem search_after_remove (w : World) (i query : string) :
  search_resources query (self (snd (remove_resource i w)))
    `sublist_of` search_resources query (self w) ∧
  (unique_ids (resources (self w)) →
   ∀ r, get_resource i (self w) = Some r →
        r ∉ search_resources query (self (snd (remove_resource i w)))).
Proof.
  destruct (present_dec i (resources (self w))) as [Hp|Hp].
  - destruct (remove_resource_present i w Hp) as (l1 & r & l2 & E & Hid & Hn & ->).
    unfold search_resources. rewrite written_resources, E, !List.filter_app. simpl.
    split.
    + apply sublist_app; [done|].
      destruct (matches (lower query) r); [by apply sublist_cons|done].
    + intros Hu r' Hr'. apply get_resource_Some in Hr' as (k1 & k2 & E' & Hid' & _).
      apply unique_ids_drop in Hu as [_ Hu].
      rewrite <- List.filter_app. intros Hin.
      apply list_elem_of_In, filter_In in Hin as [Hin _].
      apply Hu. exists r'. split; [by apply list_elem_of_In|congruence].
  - rewrite remove_resource_absent by done. split; [done|].
    intros _ r Hr. apply get_resource_None in Hp. congruence.
Qed.
End SearchComposition.

(** ** The further properties at concrete catalogs *)

Lemma get_resource_first_match_witness :
  get_resource "b1" (mkLibraryManager library_json [b1; b1_again]) = Some b1.
Proof.
  destruct (get_resource_first_match (mkLibraryManager library_json [b1; b1_again]) "b1")
    as [Hsome _].
  apply Hsome. exists [], [b1_again]. split; [reflexivity|]. split; [reflexivity|].
  apply absent_decide. vm_compute. reflexivity.
Defined.

Lemma add_then_find_witness :
  get_resource "a1" (self (snd (add_resource a1 dune_world))) = Some a1 ∧
  get_resource "b1" (self (snd (add_resource a1 dune_world))) = Some b1.
Proof.
  destruct (add_then_find dune_world a1) as [Hnew Hold].
  - apply absent_decide. vm_compute. reflexivity.
  - split; [exact Hnew|]. rewrite (Hold "b1"); [reflexivity|discriminate].
Defined.

Lemma remove_keeps_other_lookups_witness :
  get_resource "e1" (self (snd (remove_resource "b1" dune_world))) = Some e1.
Proof.
  rewrite (remove_keeps_other_lookups dune_world "b1" "e1"); [reflexivity|discriminate].
Defined.

Lemma remove_drops_first_only_witness :
  resources (self (snd (remove_resource "b1" clashing_world))) = [b1_again] ∧
  get_resource "b1" (self (snd (remove_resource "b1" clashing_world))) = Some b1_again.
Proof.
  apply (remove_drops_first_only clashing_world "b1" [] [b1_again] b1).
  - reflexivity.
  - reflexivity.
  - apply absent_decide. vm_compute. reflexivity.
Defined.

Lemma add_then_remove_restores_witness :
  self (snd (remove_resource "a1" (snd (add_resource a1 dune_world)))) = self dune_world.
Proof.
  apply (add_then_remove_restores dune_world a1).
  apply absent_decide. vm_compute. reflexivity.
Defined.

Lemma remove_twice_is_remove_once_witness :
  remove_resource "b1" (snd (remove_resource "b1" dune_world))
  = (Ok tt, snd (remove_resource "b1" dune_world)).
Proof.
  apply (remove_twice_is_remove_once dune_world "b1"). exact unique_ids_dune.
Defined.

Lemma successful_mutation_is_persisted_witness :
  fst (__init__ library_json (disk (snd (add_resource a1 dune_world))))
  = Ok (mkLibraryManager library_json [b1; e1; a1]).
Proof.
  destruct (@successful_mutation_is_persisted mem_storage dune_world
              (snd (add_resource a1 dune_world)) mem_storage_returns_saved)
    as [Hadd _].
  apply (Hadd a1). reflexivity.
Defined.

Lemma load_is_all_or_nothing_witness :
  __init__ library_json broken_disk = (Raise (KeyError "type"), broken_disk).
Proof.
  destruct (@load_is_all_or_nothing mem_storage library_json broken_disk) as [_ Hbad].
  apply (Hbad [_resource_to_dict b1] (delete "type" (_resource_to_dict e1))
              [_resource_to_dict a1] [b1] (KeyError "type")).
  - reflexivity.
  - vm_compute. reflexivity.
  - vm_compute. reflexivity.
Defined.

Lemma encode_is_injective_witness : a1 = a1.
Proof.
  apply (encode_is_injective a1 a1). reflexivity.
Defined.

Lemma search_finds_by_title_and_author_witness :
  a1 ∈ search_resources "The Hobbit" (mkLibraryManager library_json [b1; e1; a1]) ∧
  a1 ∈ search_resources "J.R.R. Tolkien" (mkLibraryManager library_json [b1; e1; a1]).
Proof.
  apply (search_finds_by_title_and_author (mkLibraryManager library_json [b1; e1; a1]) a1).
  apply list_elem_of_further, list_elem_of_further, list_elem_of_here.
Defined.

Lemma search_after_add_witness :
  search_resources "HOBBIT" (self (snd (add_resource a1 dune_world))) = [a1] ∧
  search_resources "Dune" (self (snd (add_resource a1 dune_world))) = [b1; e1].
Proof.
  split.
  - rewrite (search_after_add dune_world a1 "HOBBIT"); [reflexivity|].
    apply absent_decide. vm_compute. reflexivity.
  - rewrite (search_after_add dune_world a1 "Dune"); [reflexivity|].
    apply absent_decide. vm_compute. reflexivity.
Defined.

Lemma search_after_remove_witness :
  b1 ∉ search_resources "dune" (self (snd (remove_resource "b1" dune_world))).
Proof.
  destruct (search_after_remove dune_world "b1" "dune") as [_ Hgone].
  apply (Hgone unique_ids_dune b1). reflexivity.
Defined.
